(** * Lorenz attractor scene: the numerical core of [scene.py]

    The script integrates the Lorenz equations from five nearby initial
    states and hands the sampled trajectories to a renderer.  This file
    embeds the numerical part:

    - [lorenz_system], the right-hand side of the equations;
    - [ode_solution_points], the wrapper around SciPy's [solve_ivp];
    - the ensemble set-up of [LorenzAttractor.construct].

    Python's [float] and NumPy's [float64] are IEEE 754 binary64 numbers,
    which is what Rocq's primitive [float] is, so arithmetic is modelled
    bit for bit.  SciPy's solver and manim's renderer are collaborators
    outside the repository and enter as section variables. *)

From Stdlib Require Import ZArith List Bool Lia.
From Stdlib Require Import Floats.
Import ListNotations.

Set Warnings "-inexact-float".

(** ** Exceptions and results *)

(** The exceptions the modelled statements can raise. *)
Inductive exn : Type :=
| ValueError          (* tuple unpacking of a state that has not 3 entries;
                         [np.arange] on a length it cannot compute or
                         that exceeds the index type *)
| ZeroDivisionError   (* [(stop - start) / step] with a zero step *)
| AttributeError      (* [.T] on a Python list *)
| SolverError.        (* whatever the solver itself raises *)

Inductive result (A : Type) : Type :=
| Ok (a : A)
| Raise (e : exn).

Arguments Ok {A} a.
Arguments Raise {A} e.

Definition bind {A B : Type} (r : result A) (k : A -> result B) : result B :=
  match r with
  | Ok a => k a
  | Raise e => Raise e
  end.

Notation "x <- r ;; k" := (bind r (fun x => k))
  (at level 61, r at next level, right associativity).

(** A keyword argument left out takes its default. *)
Definition kwarg (default : float) (given : option float) : float :=
  match given with
  | Some v => v
  | None => default
  end.

(** ** The dynamics function *)

Open Scope float_scope.

(** [x, y, z = state] *)
Definition unpack3 (state : list float) : result (float * float * float) :=
  match state with
  | [x; y; z] => Ok (x, y, z)
  | _ => Raise ValueError
  end.

Definition sigma_default : float := 10.
Definition rho_default : float := 28.
Definition beta_default : float := 8 / 3.

(** [def lorenz_system(t, state, sigma=10, rho=28, beta=8 / 3)].
    The integer defaults 10 and 28 meet float operands only, where Python
    converts them exactly. *)
Definition lorenz_system (t : float) (state : list float)
    (sigma rho beta : option float) : result (list float) :=
  let sigma := kwarg sigma_default sigma in
  let rho := kwarg rho_default rho in
  let beta := kwarg beta_default beta in
  xyz <- unpack3 state ;;
  let '(x, y, z) := xyz in
  let dxdt := sigma * (y - x) in
  let dydt := x * (rho - z) - y in
  let dzdt := x * y - beta * z in
  Ok [dxdt; dydt; dzdt].


(** The function object the scene passes around: [lorenz_system] with no
    keyword given. *)
Definition lorenz : float -> list float -> result (list float) :=
  fun t state => lorenz_system t state None None None.

(** ** The NumPy operations the wrapper uses *)

(** Conversion of a non-negative machine integer to a float, exact below
    2^53. *)
Definition float_of_Z (n : Z) : float := of_uint63 (Uint63.of_Z n).
Definition float_of_nat (n : nat) : float := float_of_Z (Z.of_nat n).

(** [ceil] of a float as an integer; [None] on infinities and NaN. *)
Definition SFceil (x : spec_float) : option Z :=
  match x with
  | S754_zero _ => Some 0%Z
  | S754_finite s m e =>
      let n := if s then Zneg m else Zpos m in
      Some match e with
           | Zneg k => (- ((- n) / 2 ^ Zpos k))%Z
           | _ => (n * 2 ^ e)%Z
           end
  | S754_infinity _ | S754_nan => None
  end.

Definition float_ceil (x : float) : option Z := SFceil (Prim2SF x).

(** The entries of [np.arange] once the length is known: the first two are
    stored as [start] and [start + step], the rest are filled in as
    [start + i * delta] with [delta] the difference of the first two. *)
Definition arange_fill (start step : float) (length : nat) : list float :=
  let next := start + step in
  let delta := next - start in
  map (fun i => match i with
                | O => start
                | S O => next
                | _ => start + float_of_nat i * delta
                end) (seq 0 length).

(** The length [np.arange] computes for Python scalars: the ceiling of the
    float quotient [(stop - start) / step].  A zero step raises in the
    division.  A quotient that is not a number raises [ValueError]; an
    infinite quotient, or a ceiling outside the index type, overflows in
    the length computation, which [np.arange] reports as [ValueError] too
    (maximum allowed size exceeded).  A quotient that has underflowed to
    zero from a non-empty range gives length one (zero if the quotient is
    negative); a length that is not positive gives the empty array. *)
Definition arange_length (start stop step : float) : result nat :=
  let next := stop - start in
  if is_zero step then Raise ZeroDivisionError
  else
    let val := next / step in
    match float_ceil val with
    | None => Raise ValueError
    | Some n =>
        if ((n <? - 2 ^ 63) || (2 ^ 63 <? n))%Z then Raise ValueError
        else if is_zero val && negb (is_zero next)
             then Ok (if get_sign val then 0%nat else 1%nat)
             else Ok (Z.to_nat n)
    end.

(** [np.arange(start, stop, step)] *)
Definition np_arange (start stop step : float) : result (list float) :=
  length <- arange_length start stop step ;;
  Ok (arange_fill start step length).

(** The sample times as the specification lists them: 0, dt, 2 dt, ... *)
Definition sample_time (dt : float) (k : nat) : float :=
  match k with
  | O => 0
  | S O => dt
  | _ => float_of_nat k * dt
  end.

(** A two-dimensional array: its shape and its rows. *)
Record ndarray : Type := {
  shape : nat * nat;
  rows : list (list float)
}.

Definition column (j : nat) (a : ndarray) : list float :=
  map (fun r => nth j r 0) (rows a).

(** [a.T] *)
Definition transpose (a : ndarray) : ndarray :=
  {| shape := (snd (shape a), fst (shape a));
     rows := map (fun j => column j a) (seq 0 (snd (shape a))) |}.

(** ** The trajectory integrator *)

(** The field [y] of SciPy's result object when sample times are given:
    the array of the samples, one column per sampled time, or, when no
    requested time was sampled, the empty Python list the solver started
    with. *)
Inductive samples : Type :=
| NdArray (a : ndarray)
| EmptyList.

(** [y.T]: an array has the attribute, a list has not. *)
Definition attr_T (ys : samples) : result ndarray :=
  match ys with
  | NdArray a => Ok (transpose a)
  | EmptyList => Raise AttributeError
  end.

(** What the wrapper reads of SciPy's result object, and the two fields
    that report how the integration ended. *)
Record OdeResult : Type := {
  t : list float;
  y : samples;
  status : Z;
  success : bool
}.

Definition dynamics : Type := float -> list float -> result (list float).

(** [solve_ivp(fun, t_span, y0, t_eval=...)], every other keyword at its
    default. *)
Definition ivp_solver : Type :=
  dynamics -> float * float -> list float -> list float -> result OdeResult.

Definition dt_default : float := 0.01.

Section Integrator.

Variable solve_ivp : ivp_solver.

(** [def ode_solution_points(function, state0, time, dt=0.01)] *)
Definition ode_solution_points (function : dynamics) (state0 : list float)
    (time : float) (dt : option float) : result ndarray :=
  let dt := kwarg dt_default dt in
  t_eval <- np_arange 0 time dt ;;
  solution <- solve_ivp function (0, time) state0 t_eval ;;
  attr_T (y solution).

End Integrator.

(** ** The ensemble of [LorenzAttractor.construct] *)

Definition epsilon : float := 1e-5.
Definition evolution_time : float := 15.
Definition n_points : nat := 5.

(** [[10, 10, 10 + n * epsilon] for n in range(n_points)] *)
Definition states : list (list float) :=
  map (fun n => [10; 10; 10 + float_of_nat n * epsilon]) (seq 0 n_points).

Section Scene.

Variable solve_ivp : ivp_solver.

(** Colours belong to the renderer. *)
Variable color : Type.
Variable color_gradient : list color -> nat -> list color.
Variables BLUE_E RED_E : color.

(** A curve as far as the numerics go: the points it is drawn through
    and its stroke colour. *)
Record curve : Type := {
  points : ndarray;
  stroke : color
}.

Definition colors : list color :=
  color_gradient [BLUE_E; RED_E] (length states).

(** [for state, color in zip(states, colors): ... curves.add(curve)] *)
Fixpoint curves_loop (pairs : list (list float * color))
    (curves : list curve) : result (list curve) :=
  match pairs with
  | [] => Ok curves
  | (state, c) :: rest =>
      pts <- ode_solution_points solve_ivp lorenz state evolution_time None ;;
      curves_loop rest (curves ++ [{| points := pts; stroke := c |}])
  end.

(** The curves group [construct] has built when it starts drawing. *)
Definition construct : result (list curve) :=
  curves_loop (combine states colors) [].

End Scene.

Arguments points {color} c.
Arguments stroke {color} c.
Arguments curves_loop solve_ivp {color} pairs curves.
Arguments colors {color} color_gradient BLUE_E RED_E.
Arguments construct solve_ivp {color} color_gradient BLUE_E RED_E.

(** ** A reference solver

    SciPy's adaptive Runge-Kutta solver is not part of the repository.  To
    show that what the theorems below assume of a solver can be met, here is
    a small solver with the same interface: explicit Euler steps from one
    requested time to the next.  It follows SciPy in what it reports: it
    takes no sample unless the initial state and the first value of the
    dynamics are finite, it gives up, with status -1 and the samples it has
    so far, once the state stops being finite, and it leaves [y] an empty
    list when it has no sample. *)

Definition axpy (h : float) (d ys : list float) : list float :=
  map (fun p => fst p + h * snd p) (combine ys d).

Fixpoint euler_walk (f : dynamics) (tc : float) (yc : list float)
    (t_eval : list float) : result (list (float * list float) * Z) :=
  match t_eval with
  | [] => Ok ([], 0%Z)
  | te :: rest =>
      if te =? tc then
        walk <- euler_walk f tc yc rest ;;
        Ok ((te, yc) :: fst walk, snd walk)
      else
        d <- f tc yc ;;
        let yn := axpy (te - tc) d yc in
        if forallb is_finite yn then
          walk <- euler_walk f te yn rest ;;
          Ok ((te, yn) :: fst walk, snd walk)
        else Ok ([], (-1)%Z)
  end.

Definition euler_result (y0 : list float)
    (walk : list (float * list float) * Z) : OdeResult :=
  let taken := fst walk in
  {| t := map fst taken;
     y := match taken with
          | [] => EmptyList
          | _ :: _ => NdArray (transpose {| shape := (length taken, length y0);
                                           rows := map snd taken |})
          end;
     status := snd walk;
     success := (snd walk =? 0)%Z |}.

Definition euler_ivp : ivp_solver :=
  fun f t_span y0 t_eval =>
    d0 <- f (fst t_span) y0 ;;
    if forallb is_finite y0 && forallb is_finite d0 then
      walk <- euler_walk f (fst t_span) y0 t_eval ;;
      Ok (euler_result y0 walk)
    else Ok (euler_result y0 ([], (-1)%Z)).

(** A dynamics whose solution leaves every bound in finite time:
    [lambda t, s: [v * v for v in s]], the right-hand side of y' = y^2.
    From y(0) = 1 the solution 1 / (1 - t) blows up at t = 1. *)
Definition blow_up : dynamics :=
  fun _ s => Ok (map (fun v => v * v) s).

(** The result object of a solver call that returned. *)
Definition solver_answer (r : result OdeResult) : OdeResult :=
  match r with
  | Ok sol => sol
  | Raise _ => {| t := []; y := EmptyList; status := (-1)%Z; success := false |}
  end.

(** The array in [y], when there is one. *)
Definition sample_array (ys : samples) : ndarray :=
  match ys with
  | NdArray a => a
  | EmptyList => {| shape := (O, O); rows := [] |}
  end.

(** The curves of a run of [construct] that returned. *)
Definition built_curves {color : Type} (r : result (list (curve color))) :
    list (curve color) :=
  match r with
  | Ok curves => curves
  | Raise _ => []
  end.

(** ** Equality of floats as numbers

    Binary64 has two zeros.  Two floats are the same number when they are
    equal or are both zeros. *)

Definition sf_is_zero (x : spec_float) : bool :=
  match x with
  | S754_zero _ => true
  | _ => false
  end.

Definition sf_same (a b : spec_float) : Prop :=
  a = b \/ (sf_is_zero a = true /\ sf_is_zero b = true).

Definition same_number (a b : float) : Prop :=
  a = b \/ (is_zero a = true /\ is_zero b = true).

(** ** Magnitudes of binary64 numbers

    [sf_below K x] says that [x] is a zero or a finite number of magnitude
    below [2^K].  It is the invariant carried through the operations of
    [lorenz_system] to show that they do not overflow. *)

Close Scope float_scope.
Open Scope Z_scope.

Definition sf_below (K : Z) (x : spec_float) : Prop :=
  match x with
  | S754_zero _ => True
  | S754_finite _ m e => Zpos m < 2 ^ (K - e)
  | _ => False
  end.

Definition below (K : Z) (x : float) : Prop := sf_below K (Prim2SF x).

(** The sign bit of a number; NaN counts as unsigned. *)
Definition sf_sign (x : spec_float) : bool :=
  match x with
  | S754_zero s | S754_infinity s | S754_finite s _ _ => s
  | S754_nan => false
  end.

(** * Theorems *)

(** ** Binary64 arithmetic stays in range *)

Lemma digits2_pos_hi (m : positive) : Zpos m < 2 ^ Zpos (digits2_pos m).
Proof.
  induction m as [p IH | p IH | ]; simpl digits2_pos.
  - rewrite Pos2Z.inj_succ, Z.pow_succ_r by lia. lia.
  - rewrite Pos2Z.inj_succ, Z.pow_succ_r by lia. lia.
  - reflexivity.
Qed.

Lemma digits2_pos_lo (m : positive) : 2 ^ (Zpos (digits2_pos m) - 1) <= Zpos m.
Proof.
  induction m as [p IH | p IH | ]; simpl digits2_pos.
  - rewrite Pos2Z.inj_succ. replace (Z.succ (Zpos (digits2_pos p)) - 1) with (Z.succ (Zpos (digits2_pos p) - 1)) by lia.
    rewrite Z.pow_succ_r by lia. lia.
  - rewrite Pos2Z.inj_succ. replace (Z.succ (Zpos (digits2_pos p)) - 1) with (Z.succ (Zpos (digits2_pos p) - 1)) by lia.
    rewrite Z.pow_succ_r by lia. lia.
  - simpl. lia.
Qed.

Lemma digits2_pos_le (m : positive) (k : Z) :
  Zpos m < 2 ^ k -> Zpos (digits2_pos m) <= k.
Proof.
  intros H.
  destruct (Z_lt_le_dec k (Zpos (digits2_pos m))) as [Hlt | ]; [ | assumption ].
  exfalso.
  destruct (Z_lt_le_dec k 0) as [Hneg | Hk].
  - rewrite Z.pow_neg_r in H by assumption. lia.
  - pose proof (digits2_pos_lo m) as Hlo.
    assert (2 ^ k <= 2 ^ (Zpos (digits2_pos m) - 1)) by (apply Z.pow_le_mono_r; lia).
    lia.
Qed.

Lemma pow2_below_pos (m : positive) (k : Z) : Zpos m < 2 ^ k -> 0 < k.
Proof.
  intros H. destruct (Z_lt_le_dec 0 k) as [ | Hk]; [ assumption | exfalso ].
  assert (2 ^ k <= 2 ^ 0) by (destruct (Z_lt_le_dec k 0); [ rewrite Z.pow_neg_r by assumption; simpl; lia | apply Z.pow_le_mono_r; lia ]).
  simpl in *. lia.
Qed.

Lemma Zdigits2_le (m k : Z) : 0 <= m -> 0 <= k -> m < 2 ^ k -> Zdigits2 m <= k.
Proof.
  intros Hm Hk H. destruct m as [ | p | p ]; simpl; [ assumption | | lia ].
  now apply digits2_pos_le.
Qed.

Lemma shr_1_m (mrs : shr_record) :
  0 <= shr_m mrs -> shr_m (shr_1 mrs) = shr_m mrs / 2.
Proof.
  destruct mrs as [m r s]; simpl. intros Hm.
  rewrite <- Z.div2_div.
  destruct m as [ | [ p | p | ] | p ]; try reflexivity; lia.
Qed.

Lemma pow2_xO (n : positive) : 2 ^ Zpos n~0 = 2 ^ Zpos n * 2 ^ Zpos n.
Proof.
  replace (Zpos n~0) with (Zpos n + Zpos n) by lia.
  now rewrite Z.pow_add_r by lia.
Qed.

Lemma pow2_xI (n : positive) : 2 ^ Zpos n~1 = 2 * (2 ^ Zpos n * 2 ^ Zpos n).
Proof.
  replace (Zpos n~1) with (1 + (Zpos n + Zpos n)) by lia.
  now rewrite !Z.pow_add_r by lia.
Qed.

Lemma iter_shr_1_m (n : positive) :
  forall mrs, 0 <= shr_m mrs ->
    shr_m (iter_pos shr_1 n mrs) = shr_m mrs / 2 ^ Zpos n.
Proof.
  assert (Hpow : forall k, 0 < 2 ^ Zpos k) by (intros; apply Z.pow_pos_nonneg; lia).
  assert (Hdiv : forall a k, 0 <= a -> 0 <= a / 2 ^ Zpos k)
    by (intros; apply Z.div_pos; auto).
  induction n as [n IH | n IH | ]; intros mrs Hm; simpl iter_pos.
  - assert (H1 : 0 <= shr_m (shr_1 mrs)) by (rewrite shr_1_m by assumption; apply Z.div_pos; lia).
    rewrite IH by (rewrite IH by assumption; auto).
    rewrite IH by assumption. rewrite shr_1_m by assumption.
    pose proof (Hpow n).
    rewrite !Z.div_div by lia.
    now rewrite pow2_xI.
  - rewrite IH by (rewrite IH by assumption; auto).
    rewrite IH by assumption.
    pose proof (Hpow n).
    rewrite !Z.div_div by lia.
    now rewrite pow2_xO.
  - now apply shr_1_m.
Qed.

Lemma shr_fexp_exact (m e : Z) (l : location) :
  0 <= m ->
  snd (shr_fexp prec emax m e l) = Z.max e (fexp prec emax (Zdigits2 m + e)) /\
  shr_m (fst (shr_fexp prec emax m e l))
    = m / 2 ^ (snd (shr_fexp prec emax m e l) - e).
Proof.
  intros Hm. unfold shr_fexp, shr.
  assert (Hrec : shr_m (shr_record_of_loc m l) = m)
    by (destruct l as [ | [ | | ] ]; reflexivity).
  destruct (fexp prec emax (Zdigits2 m + e) - e) as [ | p | p ] eqn:Hn;
    simpl fst; simpl snd.
  - rewrite Z.sub_diag, Z.div_1_r. split; [ lia | assumption ].
  - split; [ lia | ].
    rewrite iter_shr_1_m by lia. rewrite Hrec. f_equal. f_equal. lia.
  - rewrite Z.sub_diag, Z.div_1_r. split; [ lia | assumption ].
Qed.

Lemma round_nearest_even_bounds (m : Z) (l : location) :
  m <= round_nearest_even m l <= m + 1.
Proof.
  destruct l as [ | [ | | ] ]; simpl; try lia.
  destruct (Z.even m); lia.
Qed.

Lemma div_pow2_below (a e e' K : Z) :
  0 <= a -> a < 2 ^ (K - e) -> e <= e' <= K ->
  0 <= a / 2 ^ (e' - e) < 2 ^ (K - e').
Proof.
  intros Ha Hlt He.
  assert (Hp : 0 < 2 ^ (e' - e)) by (apply Z.pow_pos_nonneg; lia).
  split; [ now apply Z.div_pos | ].
  apply Z.div_lt_upper_bound; [ assumption | ].
  rewrite <- Z.pow_add_r by lia.
  now replace (e' - e + (K - e')) with (K - e) by lia.
Qed.

Lemma binary_round_aux_below (s : bool) (m e K : Z) :
  0 < m -> m < 2 ^ (K - e) -> emin < K -> K <= emax - prec + 1 ->
  sf_below (K + 1) (binary_round_aux prec emax s m e loc_Exact).
Proof.
  intros Hm Hlt Hlo Hhi.
  assert (HeK : e < K).
  { destruct m as [ | p | p ]; try lia. apply pow2_below_pos in Hlt. lia. }
  unfold binary_round_aux.
  destruct (shr_fexp_exact m e loc_Exact) as [He1 Hm1]; [ lia | ].
  destruct (shr_fexp prec emax m e loc_Exact) as [mrs1 e1]; simpl fst in *; simpl snd in *.
  assert (Hd : Zdigits2 m <= K - e) by (apply Zdigits2_le; lia).
  assert (He1K : e <= e1 <= K - 1).
  { rewrite He1. unfold fexp, SpecFloat.emin, prec, emax in *. lia. }
  destruct (div_pow2_below m e e1 K) as [Hm1a Hm1b]; try lia.
  rewrite <- Hm1 in Hm1a, Hm1b.
  pose proof (round_nearest_even_bounds (shr_m mrs1) (loc_of_shr_record mrs1)) as Hr.
  set (m2 := round_nearest_even (shr_m mrs1) (loc_of_shr_record mrs1)) in *.
  assert (Hm2 : m2 < 2 ^ (K + 1 - e1)).
  { replace (K + 1 - e1) with (Z.succ (K - e1)) by lia.
    rewrite Z.pow_succ_r by lia. lia. }
  destruct (shr_fexp_exact m2 e1 loc_Exact) as [He2 Hm3]; [ lia | ].
  destruct (shr_fexp prec emax m2 e1 loc_Exact) as [mrs2 e2]; simpl fst in *; simpl snd in *.
  assert (Hd2 : Zdigits2 m2 <= K + 1 - e1) by (apply Zdigits2_le; lia).
  assert (He2K : e1 <= e2 <= K - 1).
  { rewrite He2. unfold fexp, SpecFloat.emin, prec, emax in *. lia. }
  destruct (div_pow2_below m2 e1 e2 (K + 1)) as [Hm3a Hm3b]; try lia.
  rewrite <- Hm3 in Hm3a, Hm3b.
  destruct (shr_m mrs2) as [ | p | p ]; simpl; try lia.
  assert (Hfin : (e2 <=? 971) = true)
    by (apply Z.leb_le; unfold prec, emax in *; lia).
  rewrite Hfin. exact Hm3b.
Qed.

Lemma sf_below_weaken (K K' : Z) (x : spec_float) :
  sf_below K x -> K <= K' -> sf_below K' x.
Proof.
  destruct x as [ | | | s m e ]; simpl; auto.
  intros H HK. apply Z.lt_le_trans with (1 := H).
  pose proof (pow2_below_pos _ _ H).
  apply Z.pow_le_mono_r; lia.
Qed.

Lemma SFmul_below (Kx Ky : Z) (x y : spec_float) :
  sf_below Kx x -> sf_below Ky y ->
  emin < Kx + Ky -> Kx + Ky <= emax - prec + 1 ->
  sf_below (Kx + Ky + 1) (SF64mul x y).
Proof.
  intros Hx Hy Hlo Hhi.
  destruct x as [ sx | | | sx mx ex ]; destruct y as [ sy | | | sy my ey ];
    simpl in Hx, Hy; try contradiction; try exact I.
  unfold SF64mul, SFmul.
  apply binary_round_aux_below; try assumption; [ lia | ].
  pose proof (pow2_below_pos _ _ Hx). pose proof (pow2_below_pos _ _ Hy).
  replace (Kx + Ky - (ex + ey)) with ((Kx - ex) + (Ky - ey)) by lia.
  rewrite Z.pow_add_r by lia. rewrite Pos2Z.inj_mul.
  apply Z.mul_lt_mono_nonneg; lia.
Qed.

Lemma shl_align_fst (m : positive) (e e' : Z) :
  e' <= e ->
  Zpos (fst (shl_align m e e')) = Zpos m * 2 ^ (e - e')
  /\ snd (shl_align m e e') = e'.
Proof.
  intros He. unfold shl_align.
  destruct (e' - e) as [ | d | d ] eqn:Hd; simpl fst; simpl snd.
  - replace (e - e') with 0 by lia. simpl. lia.
  - lia.
  - split; [ | reflexivity ].
    replace (e - e') with (Zpos d) by lia.
    clear. revert m. induction d as [d IH | d IH | ]; intros m; simpl Pos.iter.
    + rewrite Pos2Z.inj_xO, !IH, pow2_xI. lia.
    + rewrite !IH, pow2_xO. lia.
    + simpl. lia.
Qed.

Lemma shl_align_below (m : positive) (e e' K : Z) :
  Zpos m < 2 ^ (K - e) ->
  Zpos (fst (shl_align m e e')) < 2 ^ (K - snd (shl_align m e e')).
Proof.
  intros H. pose proof (pow2_below_pos _ _ H) as HK.
  destruct (Z_lt_le_dec e' e) as [Hlt | Hge].
  - destruct (shl_align_fst m e e') as [-> ->]; [ lia | ].
    replace (K - e') with ((K - e) + (e - e')) by lia.
    rewrite Z.pow_add_r by lia.
    apply Z.mul_lt_mono_pos_r; [ apply Z.pow_pos_nonneg; lia | assumption ].
  - unfold shl_align. destruct (e' - e) as [ | d | d ] eqn:Hd; simpl; try assumption; lia.
Qed.

Lemma binary_normalize_below (m e K : Z) (szero : bool) :
  Z.abs m < 2 ^ (K - e) -> emin < K -> K <= emax - prec + 1 ->
  sf_below (K + 1) (binary_normalize prec emax m e szero).
Proof.
  intros Hm Hlo Hhi.
  assert (Hround : forall s p, Zpos p < 2 ^ (K - e) ->
            sf_below (K + 1) (binary_round prec emax s p e)).
  { intros s p Hp. unfold binary_round.
    pose proof (shl_align_below p e (fexp prec emax (Zpos (digits2_pos p) + e)) K Hp) as Hz.
    destruct (shl_align p e (fexp prec emax (Zpos (digits2_pos p) + e))) as [mz ez].
    simpl fst in Hz; simpl snd in Hz.
    apply binary_round_aux_below; try assumption; lia. }
  destruct m as [ | p | p ]; simpl; [ exact I | | ]; apply Hround; exact Hm.
Qed.

Lemma aligned_sum_below (sx sy : bool) (mx my : positive) (ex ey Kx Ky : Z) (sub : bool) :
  Zpos mx < 2 ^ (Kx - ex) -> Zpos my < 2 ^ (Ky - ey) ->
  let ez := Z.min ex ey in
  let a := cond_Zopp sx (Zpos (fst (shl_align mx ex ez))) in
  let b := cond_Zopp sy (Zpos (fst (shl_align my ey ez))) in
  Z.abs (if sub then a - b else a + b) < 2 ^ (Z.max Kx Ky + 1 - ez).
Proof.
  intros Hx Hy ez a b.
  pose proof (pow2_below_pos _ _ Hx) as HKx. pose proof (pow2_below_pos _ _ Hy) as HKy.
  pose proof (shl_align_below mx ex ez Kx Hx) as Ha.
  pose proof (shl_align_below my ey ez Ky Hy) as Hb.
  destruct (shl_align_fst mx ex ez) as [_ Hsa]; [ subst ez; lia | ].
  destruct (shl_align_fst my ey ez) as [_ Hsb]; [ subst ez; lia | ].
  rewrite Hsa in Ha. rewrite Hsb in Hb.
  assert (Hez : ez <= ex /\ ez <= ey) by (subst ez; lia).
  assert (Hpa : 2 ^ (Kx - ez) <= 2 ^ (Z.max Kx Ky - ez)) by (apply Z.pow_le_mono_r; lia).
  assert (Hpb : 2 ^ (Ky - ez) <= 2 ^ (Z.max Kx Ky - ez)) by (apply Z.pow_le_mono_r; lia).
  replace (Z.max Kx Ky + 1 - ez) with (Z.succ (Z.max Kx Ky - ez)) by lia.
  rewrite Z.pow_succ_r by lia.
  subst a b. destruct sub, sx, sy; simpl cond_Zopp; lia.
Qed.

Lemma SFsub_below (Kx Ky : Z) (x y : spec_float) :
  sf_below Kx x -> sf_below Ky y ->
  emin < Z.max Kx Ky + 1 -> Z.max Kx Ky + 1 <= emax - prec + 1 ->
  sf_below (Z.max Kx Ky + 2) (SF64sub x y).
Proof.
  intros Hx Hy Hlo Hhi.
  destruct x as [ sx | | | sx mx ex ]; destruct y as [ sy | | | sy my ey ];
    simpl in Hx, Hy; try contradiction.
  - destruct sx, sy; exact I.
  - apply sf_below_weaken with (K := Ky) (x := S754_finite (negb sy) my ey); [ exact Hy | lia ].
  - apply sf_below_weaken with (K := Kx); [ exact Hx | lia ].
  - unfold SF64sub, SFsub.
    replace (Z.max Kx Ky + 2) with (Z.max Kx Ky + 1 + 1) by lia.
    apply binary_normalize_below; try assumption.
    exact (aligned_sum_below sx sy mx my ex ey Kx Ky true Hx Hy).
Qed.

Lemma SFeqb_refl_finite (s : bool) (m : positive) (e : Z) :
  SFeqb (S754_finite s m e) (S754_finite s m e) = true.
Proof.
  unfold SFeqb, SFcompare.
  rewrite Z.compare_refl, Pos.compare_cont_refl. now destruct s.
Qed.

Lemma is_nan_spec (x : float) :
  is_nan x = match Prim2SF x with S754_nan => true | _ => false end.
Proof.
  unfold is_nan. rewrite eqb_spec.
  destruct (Prim2SF x) as [ s | s | | s m e ].
  - reflexivity.
  - now destruct s.
  - reflexivity.
  - now rewrite SFeqb_refl_finite.
Qed.

Lemma is_infinity_spec (x : float) :
  is_infinity x = match Prim2SF x with S754_infinity _ => true | _ => false end.
Proof.
  unfold is_infinity. rewrite eqb_spec, abs_spec.
  change (Prim2SF infinity) with (S754_infinity false).
  now destruct (Prim2SF x) as [ s | s | | s m e ].
Qed.

Lemma is_finite_spec (x : float) :
  is_finite x = match Prim2SF x with
                | S754_zero _ | S754_finite _ _ _ => true
                | _ => false
                end.
Proof.
  unfold is_finite. rewrite is_nan_spec, is_infinity_spec.
  now destruct (Prim2SF x).
Qed.

Lemma below_is_finite (K : Z) (x : float) : below K x -> is_finite x = true.
Proof.
  unfold below. rewrite is_finite_spec.
  now destruct (Prim2SF x).
Qed.

Lemma mul_below (Kx Ky : Z) (x y : float) :
  below Kx x -> below Ky y ->
  emin < Kx + Ky -> Kx + Ky <= emax - prec + 1 ->
  below (Kx + Ky + 1) (x * y).
Proof.
  unfold below. rewrite mul_spec. apply SFmul_below.
Qed.

Lemma sub_below (Kx Ky : Z) (x y : float) :
  below Kx x -> below Ky y ->
  emin < Z.max Kx Ky + 1 -> Z.max Kx Ky + 1 <= emax - prec + 1 ->
  below (Z.max Kx Ky + 2) (x - y).
Proof.
  unfold below. rewrite sub_spec. apply SFsub_below.
Qed.

(** A float whose magnitude compares below a normal constant [c] lies
    below the power of two above [c]. *)
Lemma abs_ltb_below (x c : float) (mc : positive) (ec : Z) :
  Prim2SF c = S754_finite false mc ec ->
  Zpos (digits2_pos mc) = prec ->
  (abs x <? c)%float = true ->
  below (prec + ec) x.
Proof.
  intros Hc Hdc. rewrite ltb_spec, abs_spec, Hc. unfold below.
  pose proof (Prim2SF_valid x) as Hv.
  destruct (Prim2SF x) as [ s | s | | s m e ]; cbn [sf_below SFabs];
    [ intros _; exact I | intros H; discriminate H | intros H; discriminate H | ].
  cbn [valid_binary] in Hv. unfold bounded, canonical_mantissa in Hv.
  apply andb_prop in Hv. destruct Hv as [Hcan _]. apply Z.eqb_eq in Hcan.
  assert (Hdm : Zpos (digits2_pos m) <= prec)
    by (unfold fexp, SpecFloat.emin, prec, emax in *; lia).
  pose proof (digits2_pos_hi m) as Hm. pose proof (digits2_pos_hi mc) as Hmc.
  rewrite Hdc in Hmc.
  unfold SFltb, SFcompare.
  destruct (Z.compare_spec e ec) as [Heq | Hlt | Hgt]; intros Hcmp;
    try discriminate Hcmp.
  - subst e.
    assert (H : Zpos m < Zpos mc).
    { destruct (Pos.compare_cont Eq m mc) eqn:Hmm; try discriminate Hcmp.
      exact Hmm. }
    apply Z.lt_trans with (1 := H), Z.lt_le_trans with (1 := Hmc).
    apply Z.pow_le_mono_r; unfold prec; lia.
  - apply Z.lt_le_trans with (1 := Hm).
    apply Z.pow_le_mono_r; unfold prec in *; lia.
Qed.

Close Scope Z_scope.
Open Scope float_scope.

(** ** The dynamics function *)

(** C1: on a state (x, y, z) with parameters (sigma, rho, beta) the dynamics
    function returns (sigma*(y-x), x*(rho-z)-y, x*y-beta*z), where a
    parameter that is left out stands for its default: sigma = 10, rho = 28,
    beta = 8/3. *)
Theorem lorenz_system_derivative :
  forall t x y z (sigma rho beta : option float),
    let s := kwarg 10 sigma in
    let r := kwarg 28 rho in
    let b := kwarg (8 / 3) beta in
    lorenz_system t [x; y; z] sigma rho beta
      = Ok [s * (y - x); x * (r - z) - y; x * y - b * z].
Proof.
  intros t x y z sigma rho beta s r b. subst s r b.
  unfold lorenz_system. cbn [unpack3 bind]. reflexivity.
Qed.

(** C10: the time argument is never read: at any two times the dynamics
    function returns the same result on the same state and parameters. *)
Theorem lorenz_system_autonomous :
  forall t1 t2 state sigma rho beta,
    lorenz_system t1 state sigma rho beta
      = lorenz_system t2 state sigma rho beta.
Proof.
  intros t1 t2 state sigma rho beta. unfold lorenz_system.
  destruct (unpack3 state) as [ [ [x y] z ] | e ]; reflexivity.
Qed.

(** Side conditions on closed exponent bounds. *)
Ltac exponent_range := vm_compute; first [ reflexivity | discriminate ].

Lemma abs_lt_100_below (x : float) : (abs x <? 100) = true -> below 7 x.
Proof.
  exact (abs_ltb_below x 100 7036874417766400 (-46) eq_refl eq_refl).
Qed.

Lemma abs_lt_1e250_below (x : float) : (abs x <? 1e250) = true -> below 831 x.
Proof.
  exact (abs_ltb_below x 1e250 6290184345309700 778 eq_refl eq_refl).
Qed.

(** Counterexample to C7 read with every finite parameter as valid: sigma =
    1e308 is finite and the state (-99, 99, 0) lies in the bounded region,
    yet sigma * (y - x) overflows to infinity. *)
Lemma lorenz_system_overflows :
  forallb is_finite [1e308; 28; 8 / 3; -99; 99; 0] = true /\
  forallb (fun v => abs v <? 100) [-99; 99; 0] = true /\
  lorenz_system 0 [-99; 99; 0] (Some 1e308) (Some 28) (Some (8 / 3))
    = Ok [infinity; -2871; -9801] /\
  is_finite infinity = false.
Proof.
  repeat split; reflexivity.
Qed.

(** C7, amended: on every three-entry state the dynamics function returns
    three values and never raises; when the state lies in the region
    |x|, |y|, |z| < 100 and the parameters (given or default) have magnitude
    below 1e250, the three values are finite. *)
Theorem lorenz_system_finite_on_bounded_inputs :
  forall t x y z sigma rho beta,
  exists dx dy dz,
    lorenz_system t [x; y; z] sigma rho beta = Ok [dx; dy; dz] /\
    ((abs x <? 100) = true -> (abs y <? 100) = true ->
     (abs z <? 100) = true ->
     (abs (kwarg sigma_default sigma) <? 1e250) = true ->
     (abs (kwarg rho_default rho) <? 1e250) = true ->
     (abs (kwarg beta_default beta) <? 1e250) = true ->
     is_finite dx = true /\ is_finite dy = true /\ is_finite dz = true).
Proof.
  intros t x y z sigma rho beta.
  do 3 eexists. split; [ reflexivity | ].
  intros Hx Hy Hz Hs Hr Hb.
  apply abs_lt_100_below in Hx, Hy, Hz.
  apply abs_lt_1e250_below in Hs, Hr, Hb.
  assert (Hyx : below 9 (y - x))
    by (apply (sub_below 7 7); auto; exponent_range).
  assert (Hrz : below 833 (kwarg rho_default rho - z))
    by (apply (sub_below 831 7); auto; exponent_range).
  assert (Hxrz : below 841 (x * (kwarg rho_default rho - z)))
    by (apply (mul_below 7 833); auto; exponent_range).
  assert (Hxy : below 15 (x * y))
    by (apply (mul_below 7 7); auto; exponent_range).
  assert (Hbz : below 839 (kwarg beta_default beta * z))
    by (apply (mul_below 831 7); auto; exponent_range).
  repeat split.
  - apply (below_is_finite 841), (mul_below 831 9); auto; exponent_range.
  - apply (below_is_finite 843), (sub_below 841 7); auto; exponent_range.
  - apply (below_is_finite 841), (sub_below 15 839); auto; exponent_range.
Qed.

Lemma lorenz_system_finite_on_bounded_inputs_witness :
  exists dx dy dz,
    lorenz_system 0 [10; 10; 10] None None None = Ok [dx; dy; dz] /\
    is_finite dx = true /\ is_finite dy = true /\ is_finite dz = true.
Proof.
  destruct (lorenz_system_finite_on_bounded_inputs 0 10 10 10 None None None)
    as (dx & dy & dz & Heq & Hfin).
  exists dx, dy, dz. split; [ exact Heq | ].
  apply Hfin; reflexivity.
Defined.

(** *** Parameters that are not finite *)

Lemma mul_not_finite_l (a b : float) :
  is_finite a = false -> is_finite (a * b) = false.
Proof.
  rewrite !is_finite_spec, mul_spec.
  destruct (Prim2SF a) as [ sa | sa | | sa ma ea ]; try discriminate;
    destruct (Prim2SF b) as [ sb | sb | | sb mb eb ]; reflexivity.
Qed.

Lemma mul_not_finite_r (a b : float) :
  is_finite b = false -> is_finite (a * b) = false.
Proof.
  rewrite !is_finite_spec, mul_spec.
  destruct (Prim2SF b) as [ sb | sb | | sb mb eb ]; try discriminate;
    destruct (Prim2SF a) as [ sa | sa | | sa ma ea ]; reflexivity.
Qed.

Lemma sub_not_finite_l (a b : float) :
  is_finite a = false -> is_finite (a - b) = false.
Proof.
  rewrite !is_finite_spec, sub_spec.
  destruct (Prim2SF a) as [ sa | sa | | sa ma ea ]; try discriminate;
    destruct (Prim2SF b) as [ sb | sb | | sb mb eb ]; try reflexivity.
  now destruct sa, sb.
Qed.

Lemma sub_not_finite_r (a b : float) :
  is_finite b = false -> is_finite (a - b) = false.
Proof.
  rewrite !is_finite_spec, sub_spec.
  destruct (Prim2SF b) as [ sb | sb | | sb mb eb ]; try discriminate;
    destruct (Prim2SF a) as [ sa | sa | | sa ma ea ]; try reflexivity.
  now destruct sa, sb.
Qed.

(** Counterexample to C8: a NaN sigma is accepted; the call returns, and its
    first component is NaN. *)
Lemma lorenz_system_accepts_nan_sigma :
  is_finite nan = false /\
  lorenz_system 0 [10; 10; 10] (Some nan) None None
    = Ok [nan; 170; 10 * 10 - 8 / 3 * 10].
Proof.
  split; reflexivity.
Qed.

(** C8, amended: no parameter is checked.  Whatever sigma, rho and beta are,
    the dynamics function returns three values on a three-entry state, and
    a parameter that is not finite (an infinity or NaN) makes the component
    it enters not finite: sigma the first, rho the second, beta the
    third. *)
Theorem lorenz_system_propagates_invalid_parameters :
  forall t x y z sigma rho beta,
  exists dx dy dz,
    lorenz_system t [x; y; z] (Some sigma) (Some rho) (Some beta)
      = Ok [dx; dy; dz] /\
    (is_finite sigma = false -> is_finite dx = false) /\
    (is_finite rho = false -> is_finite dy = false) /\
    (is_finite beta = false -> is_finite dz = false).
Proof.
  intros t x y z sigma rho beta.
  do 3 eexists. split; [ reflexivity | ]. repeat split; intros H.
  - now apply mul_not_finite_l.
  - now apply sub_not_finite_l, mul_not_finite_r, sub_not_finite_l.
  - now apply sub_not_finite_r, mul_not_finite_l.
Qed.

Lemma lorenz_system_propagates_invalid_parameters_witness :
  exists dx dy dz,
    lorenz_system 0 [10; 10; 10] (Some infinity) (Some nan) (Some neg_infinity)
      = Ok [dx; dy; dz] /\
    is_finite dx = false /\ is_finite dy = false /\ is_finite dz = false.
Proof.
  destruct (lorenz_system_propagates_invalid_parameters
              0 10 10 10 infinity nan neg_infinity)
    as (dx & dy & dz & Heq & Hs & Hr & Hb).
  exists dx, dy, dz. split; [ exact Heq | ].
  repeat split; [ apply Hs | apply Hr | apply Hb ]; reflexivity.
Defined.

(** ** The sample times of [np.arange] *)

Lemma add_zero_l (x : float) : Prim2SF x <> S754_zero true -> 0 + x = x.
Proof.
  intros Hx. apply Prim2SF_inj. rewrite add_spec.
  change (Prim2SF 0) with (S754_zero false).
  destruct (Prim2SF x) as [ [ | ] | s | | s m e ]; try reflexivity.
  now elim Hx.
Qed.

Lemma sub_zero_r (x : float) : x - 0 = x.
Proof.
  apply Prim2SF_inj. rewrite sub_spec.
  change (Prim2SF 0) with (S754_zero false).
  now destruct (Prim2SF x) as [ [ | ] | s | | s m e ].
Qed.

Lemma binary_round_aux_sign (m e : Z) (l : location) :
  sf_sign (binary_round_aux prec emax false m e l) = false.
Proof.
  unfold binary_round_aux.
  destruct (shr_fexp prec emax m e l) as [mrs1 e1].
  destruct (shr_fexp prec emax _ e1 loc_Exact) as [mrs2 e2].
  destruct (shr_m mrs2); try reflexivity.
  now destruct (Z.leb e2 (emax - prec)).
Qed.

Lemma float_of_nat_sign (k : nat) : sf_sign (Prim2SF (float_of_nat k)) = false.
Proof.
  unfold float_of_nat, float_of_Z. rewrite of_uint63_spec.
  pose proof (Uint63.to_Z_bounded (Uint63.of_Z (Z.of_nat k))) as Hb.
  destruct (Uint63.to_Z (Uint63.of_Z (Z.of_nat k))) as [ | p | p ]; simpl.
  - reflexivity.
  - unfold binary_round.
    destruct (shl_align p 0 _) as [mz ez]. apply binary_round_aux_sign.
  - exfalso. destruct Hb as [Hb _]. now apply Hb.
Qed.

Lemma positive_sign (x : float) : (0 <? x) = true -> sf_sign (Prim2SF x) = false.
Proof.
  rewrite ltb_spec. change (Prim2SF 0) with (S754_zero false).
  destruct (Prim2SF x) as [ s | [ | ] | | [ | ] m e ]; try reflexivity; discriminate.
Qed.

Lemma SFmul_not_neg_zero (a b : spec_float) :
  sf_sign a = false -> sf_sign b = false -> SF64mul a b <> S754_zero true.
Proof.
  destruct a as [ sa | sa | | sa ma ea ]; destruct b as [ sb | sb | | sb mb eb ];
    simpl; intros Ha Hb; try subst sa; try subst sb; try discriminate.
  intros H.
  pose proof (binary_round_aux_sign (Zpos (ma * mb)) (ea + eb) loc_Exact) as Hs.
  unfold SF64mul, SFmul in H. simpl xorb in H. rewrite H in Hs. discriminate Hs.
Qed.

(** From zero with a positive step, [np.arange] fills in the multiples of the
    step. *)
Lemma arange_fill_from_zero (dt : float) (n : nat) :
  (0 <? dt) = true -> arange_fill 0 dt n = map (sample_time dt) (seq 0 n).
Proof.
  intros Hdt. apply positive_sign in Hdt.
  assert (H1 : 0 + dt = dt).
  { apply add_zero_l. intros H. rewrite H in Hdt. discriminate Hdt. }
  unfold arange_fill. rewrite H1, sub_zero_r.
  apply map_ext. intros [ | [ | k ] ]; try reflexivity.
  unfold sample_time. apply add_zero_l. rewrite mul_spec.
  apply SFmul_not_neg_zero; [ apply float_of_nat_sign | assumption ].
Qed.

Lemma float_ceil_zero (x : float) (n : Z) :
  is_zero x = true -> float_ceil x = Some n -> n = 0%Z.
Proof.
  unfold is_zero, float_ceil. rewrite eqb_spec.
  change (Prim2SF zero) with (S754_zero false).
  destruct (Prim2SF x) as [ s | [ | ] | | [ | ] m e ]; try discriminate.
  now intros _ [= <-].
Qed.

Lemma np_arange_from_zero (T dt : float) (te : list float) :
  (0 <? dt) = true -> np_arange 0 T dt = Ok te ->
  te = map (sample_time dt) (seq 0 (length te)) /\
  exists n : Z,
    float_ceil (T / dt) = Some n /\
    length te = if is_zero (T / dt) && negb (is_zero T) && negb (get_sign (T / dt))
                then 1%nat else Z.to_nat n.
Proof.
  intros Hdt. unfold np_arange, arange_length. rewrite sub_zero_r.
  destruct (is_zero dt); [ discriminate | ].
  destruct (float_ceil (T / dt)) as [ n | ] eqn:Hn; [ | discriminate ].
  destruct (_ || _)%bool; [ discriminate | ].
  assert (Hlen : forall k, length (map (sample_time dt) (seq 0 k)) = k)
    by (intros k; now rewrite length_map, length_seq).
  destruct (is_zero (T / dt)) eqn:Hz; destruct (is_zero T); simpl;
    intros [= <-]; rewrite arange_fill_from_zero by assumption; rewrite Hlen;
    (split; [ reflexivity | exists n; split; [ reflexivity | ] ]);
    try reflexivity.
  destruct (get_sign (T / dt)); [ | reflexivity ].
  now rewrite (float_ceil_zero (T / dt) n Hz Hn).
Qed.

(** ** The trajectory integrator *)

Lemma transpose_shape (a : ndarray) :
  shape (transpose a) = (snd (shape a), fst (shape a)).
Proof. reflexivity. Qed.

Lemma transpose_rows_length (a : ndarray) :
  length (rows (transpose a)) = snd (shape a).
Proof.
  unfold transpose; simpl. now rewrite length_map, length_seq.
Qed.

(** Counterexample to C2: with T = 0.30000000000000004 and dt = 0.1 the
    quotient T / dt rounds above 3, so four times are requested, and the
    fourth, 3 * 0.1, is T itself and not strictly below it; a solver that
    samples every requested time makes the integrator return four states,
    the last one sampled at T. *)
Lemma ode_solution_points_samples_stop_time :
  np_arange 0 0.30000000000000004 0.1
    = Ok [0; 0.1; 0.2; 0.30000000000000004] /\
  (0.30000000000000004 <? 0.30000000000000004) = false /\
  exists sol pts,
    euler_ivp lorenz (0, 0.30000000000000004) [10; 10; 10]
      [0; 0.1; 0.2; 0.30000000000000004] = Ok sol /\
    success sol = true /\
    t sol = [0; 0.1; 0.2; 0.30000000000000004] /\
    ode_solution_points euler_ivp lorenz [10; 10; 10]
      0.30000000000000004 (Some 0.1) = Ok pts /\
    shape pts = (4%nat, 3%nat).
Proof.
  split; [ reflexivity | ]. split; [ reflexivity | ].
  exists (solver_answer
            (euler_ivp lorenz (0, 0.30000000000000004) [10; 10; 10]
               [0; 0.1; 0.2; 0.30000000000000004])).
  eexists. split; [ reflexivity | ]. split; [ reflexivity | ].
  split; [ reflexivity | ]. split; reflexivity.
Qed.

(** C2, amended: for a positive step dt for which [np.arange] returns, the
    integrator requests the times 0, dt, 2 dt, ... (binary64 products), as
    many as the ceiling of the binary64 quotient T / dt (one, the time 0,
    when that quotient has underflowed to zero), and when the solver answers
    with one column per requested time it returns exactly that many states.
    The last requested time may reach T.  For T = 15 and dt = 0.01 there
    are exactly 1500 times, every one strictly below 15. *)
Theorem ode_solution_points_sample_times :
  (forall (solve_ivp : ivp_solver) (f : dynamics) state0 T dt te sol a,
      (0 <? dt) = true ->
      np_arange 0 T dt = Ok te ->
      solve_ivp f (0, T) state0 te = Ok sol ->
      y sol = NdArray a ->
      shape a = (length state0, length te) ->
      exists (n : Z) (pts : ndarray),
        float_ceil (T / dt) = Some n /\
        length te
          = (if is_zero (T / dt) && negb (is_zero T) && negb (get_sign (T / dt))
             then 1%nat else Z.to_nat n) /\
        te = map (sample_time dt) (seq 0 (length te)) /\
        ode_solution_points solve_ivp f state0 T (Some dt) = Ok pts /\
        length (rows pts) = length te /\
        shape pts = (length te, length state0)) /\
  float_ceil (15 / 0.01) = Some 1500%Z /\
  np_arange 0 15 0.01 = Ok (map (sample_time 0.01) (seq 0 1500)) /\
  forallb (fun tk => tk <? 15) (map (sample_time 0.01) (seq 0 1500)) = true.
Proof.
  split; [ | split; [ | split ]; vm_compute; reflexivity ].
  intros solve_ivp f state0 T dt te sol a Hdt Hte Hsol Hy Hshape.
  destruct (np_arange_from_zero T dt te Hdt Hte) as (Hmap & n & Hn & Hlen).
  exists n, (transpose a).
  split; [ exact Hn | ]. split; [ exact Hlen | ]. split; [ exact Hmap | ].
  split; [ | split ].
  - unfold ode_solution_points. simpl kwarg. rewrite Hte. simpl.
    rewrite Hsol. simpl. now rewrite Hy.
  - now rewrite transpose_rows_length, Hshape.
  - now rewrite transpose_shape, Hshape.
Qed.

Lemma ode_solution_points_sample_times_witness :
  exists (n : Z) (pts : ndarray),
    float_ceil (15 / 0.01) = Some n /\
    length (map (sample_time 0.01) (seq 0 1500))
      = (if is_zero (15 / 0.01) && negb (is_zero 15) && negb (get_sign (15 / 0.01))
         then 1%nat else Z.to_nat n) /\
    map (sample_time 0.01) (seq 0 1500)
      = map (sample_time 0.01)
          (seq 0 (length (map (sample_time 0.01) (seq 0 1500)))) /\
    ode_solution_points euler_ivp lorenz [10; 10; 10] 15 (Some 0.01) = Ok pts /\
    length (rows pts) = length (map (sample_time 0.01) (seq 0 1500)) /\
    shape pts
      = (length (map (sample_time 0.01) (seq 0 1500)), length [10; 10; 10]).
Proof.
  apply (proj1 ode_solution_points_sample_times euler_ivp lorenz
           [10; 10; 10] 15 0.01 (map (sample_time 0.01) (seq 0 1500))
           (solver_answer
              (euler_ivp lorenz (0, 15) [10; 10; 10]
                 (map (sample_time 0.01) (seq 0 1500))))
           (sample_array
              (y (solver_answer
                    (euler_ivp lorenz (0, 15) [10; 10; 10]
                       (map (sample_time 0.01) (seq 0 1500)))))));
    vm_compute; reflexivity.
Defined.

(** Counterexample to C4: for the dynamics y' = y^2 from y(0) = 1 over the
    horizon 15, the solution blows up at t = 1.  The reference solver gives
    up with status -1 after 114 of the 1500 requested samples (SciPy's
    solver likewise fails near t = 1 and keeps the samples taken before),
    and the integrator returns those 114 samples as if they were the
    trajectory. *)
Lemma ode_solution_points_hides_failure :
  exists te sol a pts,
    np_arange 0 15 0.01 = Ok te /\ length te = 1500%nat /\
    euler_ivp blow_up (0, 15) [1] te = Ok sol /\
    success sol = false /\ status sol = (-1)%Z /\
    y sol = NdArray a /\
    ode_solution_points euler_ivp blow_up [1] 15 None = Ok pts /\
    pts = transpose a /\
    length (rows pts) = 114%nat.
Proof.
  exists (map (sample_time 0.01) (seq 0 1500)).
  exists (solver_answer
            (euler_ivp blow_up (0, 15) [1]
               (map (sample_time 0.01) (seq 0 1500)))).
  exists (sample_array
            (y (solver_answer
                  (euler_ivp blow_up (0, 15) [1]
                     (map (sample_time 0.01) (seq 0 1500)))))).
  exists (transpose
            (sample_array
               (y (solver_answer
                     (euler_ivp blow_up (0, 15) [1]
                        (map (sample_time 0.01) (seq 0 1500))))))).
  split; [ | split; [ | split; [ | split; [ | split; [ | split;
    [ | split; [ | split ] ] ] ] ] ] ]; vm_compute; reflexivity.
Qed.

(** C4, amended: the integrator never looks at how the integration ended.
    Once the sample times are computed, a result object that carries a
    sample array makes it return the transposed samples, whatever the
    success flag and the status say, so that an integration that fails
    after its first sample yields the partial samples; a result object
    without a sample array (nothing was sampled) makes the attribute access
    [.T] raise [AttributeError]; and an exception raised by the solver call
    itself propagates. *)
Theorem ode_solution_points_returns_solver_output :
  forall (solve_ivp : ivp_solver) (f : dynamics) state0 T dt te,
    np_arange 0 T (kwarg dt_default dt) = Ok te ->
    (forall sol a,
       solve_ivp f (0, T) state0 te = Ok sol -> y sol = NdArray a ->
       ode_solution_points solve_ivp f state0 T dt = Ok (transpose a)) /\
    (forall sol,
       solve_ivp f (0, T) state0 te = Ok sol -> y sol = EmptyList ->
       ode_solution_points solve_ivp f state0 T dt = Raise AttributeError) /\
    (forall e,
       solve_ivp f (0, T) state0 te = Raise e ->
       ode_solution_points solve_ivp f state0 T dt = Raise e).
Proof.
  intros solve_ivp f state0 T dt te Hte.
  unfold ode_solution_points. rewrite Hte. cbn [bind].
  split; [ | split ].
  - intros sol a -> Hy. cbn [bind]. now rewrite Hy.
  - intros sol -> Hy. cbn [bind]. now rewrite Hy.
  - now intros e ->.
Qed.

Lemma ode_solution_points_returns_solver_output_witness :
  ode_solution_points euler_ivp blow_up [1] 15 None
    = Ok (transpose
            (sample_array
               (y (solver_answer
                     (euler_ivp blow_up (0, 15) [1]
                        (map (sample_time 0.01) (seq 0 1500))))))) /\
  ode_solution_points euler_ivp lorenz [1e200; 1e200; 1e200] 15 None
    = Raise AttributeError.
Proof.
  split.
  - destruct (ode_solution_points_returns_solver_output euler_ivp blow_up
                [1] 15 None (map (sample_time 0.01) (seq 0 1500)))
      as (H & _); [ vm_compute; reflexivity | ].
    apply (H (solver_answer
                (euler_ivp blow_up (0, 15) [1]
                   (map (sample_time 0.01) (seq 0 1500)))));
      vm_compute; reflexivity.
  - destruct (ode_solution_points_returns_solver_output euler_ivp lorenz
                [1e200; 1e200; 1e200] 15 None
                (map (sample_time 0.01) (seq 0 1500)))
      as (_ & H & _); [ vm_compute; reflexivity | ].
    apply (H (solver_answer
                (euler_ivp lorenz (0, 15) [1e200; 1e200; 1e200]
                   (map (sample_time 0.01) (seq 0 1500)))));
      vm_compute; reflexivity.
Defined.

(** ** The ensemble *)

Section SceneFacts.

Variable solve_ivp : ivp_solver.
Variable color : Type.
Variable color_gradient : list color -> nat -> list color.
Variables BLUE_E RED_E : color.

(** One pass of the loop body: the curve added for a state and a colour. *)
Let drawn (sc : list float * color) (cv : curve color) : Prop :=
  ode_solution_points solve_ivp lorenz (fst sc) evolution_time None
    = Ok (points cv)
  /\ stroke cv = snd sc.

Lemma curves_loop_spec (pairs : list (list float * color)) :
  forall acc curves,
    curves_loop solve_ivp pairs acc = Ok curves <->
    exists new, curves = acc ++ new /\ Forall2 drawn pairs new.
Proof.
  induction pairs as [ | [state c] rest IH ]; intros acc curves; simpl.
  - split.
    + intros [= <-]. exists []. split; [ now rewrite app_nil_r | constructor ].
    + intros (new & -> & Hall). inversion Hall. now rewrite app_nil_r.
  - destruct (ode_solution_points solve_ivp lorenz state evolution_time None)
      as [ pts | e ] eqn:Hpts; simpl.
    + rewrite IH. split.
      * intros (new & -> & Hall).
        exists ({| points := pts; stroke := c |} :: new). split.
        -- now rewrite <- app_assoc.
        -- constructor; [ | exact Hall ]. split; [ exact Hpts | reflexivity ].
      * intros (new & -> & Hall).
        inversion Hall as [ | sc cv rest' new' [Hcv Hst] Hrest ]; subst.
        exists new'. split; [ | exact Hrest ].
        rewrite <- app_assoc. simpl. do 2 f_equal.
        destruct cv as [pts' c']; simpl in *.
        rewrite Hpts in Hcv. now injection Hcv as <-; subst.
    + split; [ discriminate | ].
      intros (new & _ & Hall).
      inversion Hall as [ | sc cv rest' new' [Hcv _] _ ]; subst.
      simpl in Hcv. rewrite Hpts in Hcv. discriminate Hcv.
Qed.

Lemma drawn_combine (sts : list (list float)) :
  forall (cols : list color) (curves : list (curve color)),
    length cols = length sts ->
    Forall2 drawn (combine sts cols) curves <->
    Forall2 (fun state cv =>
               ode_solution_points solve_ivp lorenz state evolution_time None
                 = Ok (points cv)) sts curves
    /\ map stroke curves = cols.
Proof.
  induction sts as [ | state sts IH ]; intros [ | c cols ] curves Hlen;
    try discriminate Hlen; simpl.
  - split.
    + intros Hall. inversion Hall. split; [ constructor | reflexivity ].
    + intros [Hall _]. inversion Hall. constructor.
  - injection Hlen as Hlen. split.
    + intros Hall. inversion Hall as [ | sc cv ps cvs [Hcv Hst] Hrest ]; subst.
      apply IH in Hrest; [ | exact Hlen ]. destruct Hrest as [Hrest Hmap].
      split; [ constructor; assumption | ]. simpl in *. now rewrite Hst, Hmap.
    + intros [Hall Hmap].
      inversion Hall as [ | st cv ss cvs Hcv Hrest ]; subst.
      simpl in Hmap. injection Hmap as Hst Hmap.
      constructor; [ split; assumption | ].
      apply IH; [ exact Hlen | split; assumption ].
Qed.

(** C3: the ensemble has exactly five initial states, the k-th being
    (10, 10, 10 + k * 1e-5); and, the renderer supplying one colour per
    state, [construct] builds one curve per state, whose points are the
    output of the integrator on that state with the same dynamics
    (default sigma, rho, beta), the same horizon 15 and the same default
    step, so that the trajectories differ in the initial state only. *)
Theorem construct_ensemble :
  length (color_gradient [BLUE_E; RED_E] 5) = 5%nat ->
  length states = 5%nat /\
  (forall k, (k < 5)%nat ->
     nth k states [] = [10; 10; 10 + float_of_nat k * 1e-5]) /\
  (forall curves,
     construct solve_ivp color_gradient BLUE_E RED_E = Ok curves <->
     Forall2 (fun state cv =>
                ode_solution_points solve_ivp lorenz state 15 None
                  = Ok (points cv)) states curves
     /\ map stroke curves = color_gradient [BLUE_E; RED_E] 5).
Proof.
  intros Hcolors. split; [ reflexivity | ]. split.
  - intros k Hk.
    do 5 (destruct k as [ | k ]; [ reflexivity | ]). lia.
  - intros curves. unfold construct, colors.
    rewrite curves_loop_spec. simpl app.
    change (length states) with 5%nat.
    rewrite <- (drawn_combine states (color_gradient [BLUE_E; RED_E] 5) curves Hcolors).
    split.
    + now intros (new & -> & Hall).
    + intros Hall. now exists curves.
Qed.

End SceneFacts.

Lemma construct_ensemble_witness :
  length states = 5%nat /\
  (forall k, (k < 5)%nat ->
     nth k states [] = [10; 10; 10 + float_of_nat k * 1e-5]) /\
  (forall curves : list (curve nat),
     construct euler_ivp (fun _ n => seq 0 n) 0%nat 1%nat = Ok curves <->
     Forall2 (fun state cv =>
                ode_solution_points euler_ivp lorenz state 15 None
                  = Ok (points cv)) states curves
     /\ map stroke curves = seq 0 5).
Proof.
  apply (construct_ensemble euler_ivp nat (fun _ n => seq 0 n) 0%nat 1%nat).
  reflexivity.
Defined.

(** * Further properties of the code *)

(** ** The dynamics function: the shape of the state *)

(** X1: the dynamics function raises [ValueError] exactly on the states that
    do not have three entries, whatever the parameters; on the others it
    returns three values. *)
Theorem lorenz_system_state_arity :
  forall t state sigma rho beta,
    (length state = 3%nat ->
     exists dx dy dz,
       lorenz_system t state sigma rho beta = Ok [dx; dy; dz]) /\
    (length state <> 3%nat ->
     lorenz_system t state sigma rho beta = Raise ValueError).
Proof.
  intros t state sigma rho beta.
  destruct state as [ | x [ | y0 [ | z [ | w rest ] ] ] ]; simpl length;
    split; intros H; try discriminate H; try reflexivity;
    try (now elim H).
  do 3 eexists. reflexivity.
Qed.

Lemma lorenz_system_state_arity_witness :
  (exists dx dy dz, lorenz_system 0 [1; 2; 3] None None None = Ok [dx; dy; dz])
  /\ lorenz_system 0 [1; 2] None None None = Raise ValueError.
Proof.
  split.
  - apply (proj1 (lorenz_system_state_arity 0 [1; 2; 3] None None None)).
    reflexivity.
  - apply (proj2 (lorenz_system_state_arity 0 [1; 2] None None None)).
    discriminate.
Defined.

(** X4: a state coordinate that is not finite is neither rejected nor
    repaired: an infinite or NaN x or y makes all three derivative
    components not finite, and such a z makes the second and the third not
    finite. *)
Theorem lorenz_system_propagates_invalid_state :
  forall t x y0 z sigma rho beta,
  exists dx dy dz,
    lorenz_system t [x; y0; z] sigma rho beta = Ok [dx; dy; dz] /\
    (is_finite x = false \/ is_finite y0 = false ->
     is_finite dx = false /\ is_finite dy = false /\ is_finite dz = false) /\
    (is_finite z = false ->
     is_finite dy = false /\ is_finite dz = false).
Proof.
  intros t x y0 z sigma rho beta.
  do 3 eexists. split; [ reflexivity | ]. split.
  - intros [H | H]; repeat split.
    + now apply mul_not_finite_r, sub_not_finite_r.
    + now apply sub_not_finite_l, mul_not_finite_l.
    + now apply sub_not_finite_l, mul_not_finite_l.
    + now apply mul_not_finite_r, sub_not_finite_l.
    + now apply sub_not_finite_r.
    + now apply sub_not_finite_l, mul_not_finite_r.
  - intros H; split.
    + now apply sub_not_finite_l, mul_not_finite_r, sub_not_finite_r.
    + now apply sub_not_finite_r, mul_not_finite_r.
Qed.

Lemma lorenz_system_propagates_invalid_state_witness :
  exists dx dy dz,
    lorenz_system 0 [nan; 10; infinity] None None None = Ok [dx; dy; dz] /\
    is_finite dx = false /\ is_finite dy = false /\ is_finite dz = false.
Proof.
  destruct (lorenz_system_propagates_invalid_state
              0 nan 10 infinity None None None)
    as (dx & dy & dz & Heq & Hxy & Hz).
  exists dx, dy, dz. split; [ exact Heq | ].
  apply Hxy. left. reflexivity.
Defined.

(** ** The trajectory integrator: sample grids that cannot be built *)

Lemma is_zero_spec (x : float) : is_zero x = sf_is_zero (Prim2SF x).
Proof.
  unfold is_zero. rewrite eqb_spec.
  change (Prim2SF zero) with (S754_zero false).
  now destruct (Prim2SF x) as [ s | [ | ] | | [ | ] m e ].
Qed.

Lemma div_nan (a b : float) :
  is_nan a = true \/ is_nan b = true -> Prim2SF (a / b) = S754_nan.
Proof.
  rewrite !is_nan_spec, div_spec.
  destruct (Prim2SF a) as [ sa | sa | | sa ma ea ];
    destruct (Prim2SF b) as [ sb | sb | | sb mb eb ];
    intros [H | H]; try discriminate H; reflexivity.
Qed.

Lemma div_infinity (a b : float) :
  is_infinity a = true -> is_finite b = true -> is_zero b = false ->
  exists s, Prim2SF (a / b) = S754_infinity s.
Proof.
  rewrite is_infinity_spec, is_finite_spec, is_zero_spec, div_spec.
  destruct (Prim2SF a) as [ sa | sa | | sa ma ea ]; try discriminate;
    destruct (Prim2SF b) as [ sb | sb | | sb mb eb ]; try discriminate.
  intros _ _ _. now exists (xorb sa sb).
Qed.

(** X5: a sample grid that cannot be built stops the integrator before the
    solver is called.  For every solver, a zero step raises
    [ZeroDivisionError]; a NaN step, a NaN horizon with a non-zero step, and
    an infinite horizon with a finite non-zero step raise [ValueError]. *)
Theorem ode_solution_points_rejects_bad_grid :
  forall (solve_ivp : ivp_solver) (f : dynamics) state0 T dt,
    (is_zero dt = true ->
     ode_solution_points solve_ivp f state0 T (Some dt)
       = Raise ZeroDivisionError) /\
    (is_nan dt = true ->
     ode_solution_points solve_ivp f state0 T (Some dt) = Raise ValueError) /\
    (is_nan T = true -> is_zero dt = false ->
     ode_solution_points solve_ivp f state0 T (Some dt) = Raise ValueError) /\
    (is_infinity T = true -> is_finite dt = true -> is_zero dt = false ->
     ode_solution_points solve_ivp f state0 T (Some dt) = Raise ValueError).
Proof.
  intros solve_ivp f state0 T dt.
  unfold ode_solution_points, np_arange, arange_length. simpl kwarg.
  rewrite sub_zero_r. unfold float_ceil.
  split; [ | split; [ | split ] ].
  - intros ->. reflexivity.
  - intros Hdt.
    assert (Hz : is_zero dt = false).
    { rewrite is_zero_spec. rewrite is_nan_spec in Hdt.
      now destruct (Prim2SF dt). }
    rewrite Hz, (div_nan T dt) by now right. reflexivity.
  - intros HT ->.
    rewrite (div_nan T dt) by now left. reflexivity.
  - intros HT Hdt Hz. rewrite Hz.
    destruct (div_infinity T dt HT Hdt Hz) as [s Hs].
    rewrite Hs. reflexivity.
Qed.

Lemma ode_solution_points_rejects_bad_grid_witness :
  ode_solution_points euler_ivp lorenz [10; 10; 10] 15 (Some 0)
    = Raise ZeroDivisionError /\
  ode_solution_points euler_ivp lorenz [10; 10; 10] 15 (Some nan)
    = Raise ValueError /\
  ode_solution_points euler_ivp lorenz [10; 10; 10] nan (Some 0.01)
    = Raise ValueError /\
  ode_solution_points euler_ivp lorenz [10; 10; 10] infinity (Some 0.01)
    = Raise ValueError.
Proof.
  split; [ | split; [ | split ] ].
  - destruct (ode_solution_points_rejects_bad_grid euler_ivp lorenz
                [10; 10; 10] 15 0) as (H & _).
    apply H. reflexivity.
  - destruct (ode_solution_points_rejects_bad_grid euler_ivp lorenz
                [10; 10; 10] 15 nan) as (_ & H & _).
    apply H. reflexivity.
  - destruct (ode_solution_points_rejects_bad_grid euler_ivp lorenz
                [10; 10; 10] nan 0.01) as (_ & _ & H & _).
    apply H; reflexivity.
  - destruct (ode_solution_points_rejects_bad_grid euler_ivp lorenz
                [10; 10; 10] infinity 0.01) as (_ & _ & _ & H).
    apply H; reflexivity.
Defined.

(** ** The trajectory integrator: a horizon that is not positive *)

Lemma binary_round_aux_signed (s : bool) (m e : Z) (l : location) :
  binary_round_aux prec emax s m e l = S754_nan \/
  sf_sign (binary_round_aux prec emax s m e l) = s /\
  binary_round_aux prec emax s m e l <> S754_nan.
Proof.
  unfold binary_round_aux.
  destruct (shr_fexp prec emax m e l) as [mrs1 e1].
  destruct (shr_fexp prec emax _ e1 loc_Exact) as [mrs2 e2].
  destruct (shr_m mrs2); [ right | right | left; reflexivity ].
  - split; [ reflexivity | discriminate ].
  - destruct (Z.leb e2 (emax - prec)); (split; [ reflexivity | discriminate ]).
Qed.

Lemma SFceil_negative (m : positive) (e n : Z) :
  SFceil (S754_finite true m e) = Some n -> (n <= 0)%Z.
Proof.
  unfold SFceil. intros [= <-]. destruct e as [ | k | k ].
  - change (Zneg m * 2 ^ 0 <= 0)%Z. rewrite Z.pow_0_r. lia.
  - assert (0 < 2 ^ Zpos k)%Z by (apply Z.pow_pos_nonneg; lia).
    change (Zneg m * 2 ^ Zpos k <= 0)%Z.
    apply Z.mul_nonpos_nonneg; lia.
  - assert (0 <= Zpos m / 2 ^ Zpos k)%Z
      by (apply Z.div_pos; [ lia | apply Z.pow_pos_nonneg; lia ]).
    change (- Zneg m)%Z with (Zpos m). lia.
Qed.

Lemma get_sign_neg_zero (x : float) :
  Prim2SF x = S754_zero true -> get_sign x = true.
Proof.
  intros Hx. unfold get_sign. rewrite is_zero_spec, Hx. simpl sf_is_zero.
  rewrite ltb_spec, div_spec, Hx. reflexivity.
Qed.

(** With a horizon that is not positive and a positive step, [np.arange]
    either raises or returns no sample time at all. *)
Lemma np_arange_nonpositive (T dt : float) (te : list float) :
  (T <=? 0) = true -> (0 <? dt) = true ->
  np_arange 0 T dt = Ok te -> te = [].
Proof.
  intros HT Hdt. unfold np_arange, arange_length. rewrite sub_zero_r.
  assert (Hempty : arange_fill 0 dt 0 = []) by reflexivity.
  rewrite leb_spec in HT. rewrite ltb_spec in Hdt.
  change (Prim2SF 0) with (S754_zero false) in HT, Hdt.
  rewrite !is_zero_spec. unfold float_ceil.
  pose proof (get_sign_neg_zero (T / dt)) as Hsign.
  rewrite div_spec in *.
  destruct (Prim2SF dt) as [ sd | [ | ] | | [ | ] md ed ]; try discriminate Hdt;
    destruct (Prim2SF T) as [ sT | [ | ] | | [ | ] mT eT ]; try discriminate HT;
    simpl sf_is_zero; cbn [SF64div SFdiv SFceil xorb bind negb andb orb];
    try discriminate; try (intros [= <-]; exact Hempty).
  - rewrite Hsign by reflexivity. intros [= <-]. exact Hempty.
  - unfold SF64div, SFdiv in *. cbn [xorb] in *.
    destruct (SFdiv_core_binary prec emax (Zpos mT) eT (Zpos md) ed)
      as [ [mz ez] lz ].
    destruct (binary_round_aux_signed true mz ez lz) as [Hnan | [Hs Hnn] ].
    + rewrite Hnan. discriminate.
    + destruct (binary_round_aux prec emax true mz ez lz)
        as [ s | s | | s m e ] eqn:Hr; simpl in Hs; try subst s;
        try (now elim Hnn); cbn [SFceil sf_is_zero andb negb bind].
      * rewrite Hsign by reflexivity. intros [= <-]. exact Hempty.
      * discriminate.
      * pose proof (SFceil_negative m e) as Hneg. cbn [SFceil] in Hneg.
        specialize (Hneg _ eq_refl).
        destruct (_ || _)%bool; [ discriminate | ].
        replace (Z.to_nat _) with 0%nat by lia.
        intros [= <-]. exact Hempty.
Qed.

(** X6: with a horizon T <= 0 and a positive step no sample time is
    requested, and the integrator does not return when the solver, as
    SciPy does, leaves [y] an empty list on a run without samples: it
    raises, and the exception is the one of [np.arange] or of the solver
    call if either raised, and [AttributeError], from [.T] on the list,
    otherwise. *)
Theorem ode_solution_points_nonpositive_horizon :
  forall (solve_ivp : ivp_solver) (f : dynamics) state0 T dt,
    (T <=? 0) = true -> (0 <? dt) = true ->
    (forall sol, solve_ivp f (0, T) state0 [] = Ok sol -> y sol = EmptyList) ->
    exists e,
      ode_solution_points solve_ivp f state0 T (Some dt) = Raise e /\
      (np_arange 0 T dt = Raise e \/
       np_arange 0 T dt = Ok [] /\
       (solve_ivp f (0, T) state0 [] = Raise e \/
        e = AttributeError /\
        exists sol, solve_ivp f (0, T) state0 [] = Ok sol)).
Proof.
  intros solve_ivp f state0 T dt HT Hdt Hlist.
  unfold ode_solution_points. simpl kwarg.
  destruct (np_arange 0 T dt) as [ te | e ] eqn:Hte.
  - rewrite (np_arange_nonpositive T dt te HT Hdt Hte) in *. cbn [bind].
    destruct (solve_ivp f (0, T) state0 []) as [ sol | e ] eqn:Hsol.
    + exists AttributeError. cbn [bind]. rewrite (Hlist sol eq_refl).
      split; [ reflexivity | ]. right. split; [ reflexivity | ].
      right. split; [ reflexivity | ]. now exists sol.
    + exists e. split; [ reflexivity | ]. right. split; [ reflexivity | ].
      now left.
  - exists e. split; [ reflexivity | ]. now left.
Qed.

Lemma ode_solution_points_nonpositive_horizon_witness :
  exists e,
    ode_solution_points euler_ivp lorenz [10; 10; 10] (-15) (Some 0.01)
      = Raise e /\
    (np_arange 0 (-15) 0.01 = Raise e \/
     np_arange 0 (-15) 0.01 = Ok [] /\
     (euler_ivp lorenz (0, -15) [10; 10; 10] [] = Raise e \/
      e = AttributeError /\
      exists sol, euler_ivp lorenz (0, -15) [10; 10; 10] [] = Ok sol)).
Proof.
  apply (ode_solution_points_nonpositive_horizon euler_ivp lorenz
           [10; 10; 10] (-15) 0.01); try reflexivity.
  intros sol H. vm_compute in H. injection H as <-. reflexivity.
Defined.

(** ** The trajectory integrator: what a row of the output is *)

Lemma transpose_entry (a : ndarray) (k i : nat) :
  (k < snd (shape a))%nat ->
  nth i (nth k (rows (transpose a)) []) 0 = nth k (nth i (rows a) []) 0.
Proof.
  intros Hk. unfold transpose, column. cbn [rows].
  rewrite nth_indep with (d' := map (fun r => nth 0 r 0) (rows a))
    by now rewrite length_map, length_seq.
  rewrite (map_nth (fun j => map (fun r => nth j r 0) (rows a))).
  rewrite seq_nth by exact Hk. simpl.
  rewrite <- (map_nth (fun r => nth k r 0) (rows a) [] i).
  f_equal. now destruct k.
Qed.

(** X7: whenever the integrator returns, the solver's [y] is an array and
    the output is indexed by sample first and coordinate second: it has as
    many rows as [y] has columns, and entry i of row k is entry k of row i
    of [y]. *)
Theorem ode_solution_points_rows_are_samples :
  forall (solve_ivp : ivp_solver) (f : dynamics) state0 T dt pts,
    ode_solution_points solve_ivp f state0 T dt = Ok pts ->
    exists te sol a,
      np_arange 0 T (kwarg dt_default dt) = Ok te /\
      solve_ivp f (0, T) state0 te = Ok sol /\
      y sol = NdArray a /\
      length (rows pts) = snd (shape a) /\
      forall k i, (k < snd (shape a))%nat ->
        nth i (nth k (rows pts) []) 0 = nth k (nth i (rows a) []) 0.
Proof.
  intros solve_ivp f state0 T dt pts. unfold ode_solution_points.
  destruct (np_arange 0 T (kwarg dt_default dt)) as [ te | e ];
    [ | discriminate ]. cbn [bind].
  destruct (solve_ivp f (0, T) state0 te) as [ sol | e ] eqn:Hsol;
    [ | discriminate ]. cbn [bind].
  destruct (y sol) as [ a | ] eqn:Hy; [ | discriminate ].
  intros [= <-]. exists te, sol, a.
  split; [ reflexivity | ]. split; [ exact Hsol | ].
  split; [ exact Hy | ].
  split; [ apply transpose_rows_length | ].
  intros k i Hk. now apply transpose_entry.
Qed.

Lemma ode_solution_points_rows_are_samples_witness :
  exists te sol a,
    np_arange 0 15 (kwarg dt_default None) = Ok te /\
    euler_ivp lorenz (0, 15) [10; 10; 10] te = Ok sol /\
    y sol = NdArray a /\
    length
      (rows (transpose
               (sample_array
                  (y (solver_answer
                        (euler_ivp lorenz (0, 15) [10; 10; 10]
                           (map (sample_time 0.01) (seq 0 1500))))))))
      = snd (shape a) /\
    forall k i, (k < snd (shape a))%nat ->
      nth i
        (nth k
           (rows (transpose
                    (sample_array
                       (y (solver_answer
                             (euler_ivp lorenz (0, 15) [10; 10; 10]
                                (map (sample_time 0.01) (seq 0 1500)))))))) [])
        0
      = nth k (nth i (rows a) []) 0.
Proof.
  apply (ode_solution_points_rows_are_samples euler_ivp lorenz [10; 10; 10] 15 None).
  vm_compute; reflexivity.
Defined.

(** ** The ensemble: failures and missing colours *)

Lemma curves_loop_raise (solve_ivp : ivp_solver) (color : Type)
    (d : list float * color) (e : exn) :
  forall (pairs : list (list float * color)) (acc : list (curve color)) (k : nat),
    (k < length pairs)%nat ->
    (forall j, (j < k)%nat ->
       exists p, ode_solution_points solve_ivp lorenz (fst (nth j pairs d))
                   evolution_time None = Ok p) ->
    ode_solution_points solve_ivp lorenz (fst (nth k pairs d))
      evolution_time None = Raise e ->
    curves_loop solve_ivp pairs acc = Raise e.
Proof.
  induction pairs as [ | [state c] rest IH ]; intros acc k Hk Hbefore Hfail.
  - simpl in Hk. lia.
  - destruct k as [ | k ]; simpl in *.
    + now rewrite Hfail.
    + destruct (Hbefore 0%nat) as [p Hp]; [ lia | ]. simpl in Hp.
      rewrite Hp. simpl. apply (IH _ k); [ lia | | exact Hfail ].
      intros j Hj. apply (Hbefore (S j)). lia.
Qed.

(** X8: [construct] stops at the first integration that raises.  With one
    colour per state, if the integrations of the states before the k-th
    return and the k-th raises an exception, [construct] raises that
    exception, whatever the later states would do. *)
Theorem construct_stops_at_first_failure :
  forall (solve_ivp : ivp_solver) (color : Type)
         (color_gradient : list color -> nat -> list color)
         (BLUE_E RED_E : color) (k : nat) (e : exn),
    length (color_gradient [BLUE_E; RED_E] 5%nat) = 5%nat ->
    (k < 5)%nat ->
    (forall j, (j < k)%nat ->
       exists p,
         ode_solution_points solve_ivp lorenz (nth j states []) 15 None = Ok p) ->
    ode_solution_points solve_ivp lorenz (nth k states []) 15 None = Raise e ->
    construct solve_ivp color_gradient BLUE_E RED_E = Raise e.
Proof.
  intros solve_ivp color color_gradient BLUE_E RED_E k e Hcolors Hk Hbefore Hfail.
  unfold construct, colors. change (length states) with 5%nat.
  assert (Hnth : forall j,
             fst (nth j (combine states (color_gradient [BLUE_E; RED_E] 5%nat))
                    ([], BLUE_E)) = nth j states []).
  { intros j. rewrite combine_nth by (rewrite Hcolors; reflexivity).
    reflexivity. }
  apply (curves_loop_raise solve_ivp color ([], BLUE_E) e _ [] k).
  - rewrite length_combine, Hcolors. exact Hk.
  - intros j Hj. rewrite Hnth. now apply Hbefore.
  - rewrite Hnth. exact Hfail.
Qed.

Lemma construct_stops_at_first_failure_witness :
  construct
    (fun f t_span y0 t_eval =>
       if nth 2 y0 0 <? 10.00001 then euler_ivp f t_span y0 t_eval
       else Raise SolverError)
    (fun _ n => seq 0 n) 0%nat 1%nat
  = Raise SolverError.
Proof.
  apply (construct_stops_at_first_failure
           (fun f t_span y0 t_eval =>
              if nth 2 y0 0 <? 10.00001 then euler_ivp f t_span y0 t_eval
              else Raise SolverError)
           nat (fun _ n => seq 0 n) 0%nat 1%nat 1%nat SolverError).
  - reflexivity.
  - lia.
  - intros j Hj. replace j with 0%nat by lia.
    exists (transpose
              (sample_array
                 (y (solver_answer
                       (euler_ivp lorenz (0, 15) [10; 10; 10]
                          (map (sample_time 0.01) (seq 0 1500))))))).
    vm_compute; reflexivity.
  - vm_compute; reflexivity.
Defined.

Lemma Forall2_nth_error {A B : Type} (R : A -> B -> Prop) :
  forall (l : list A) (l' : list B) (k : nat) (b : B),
    Forall2 R l l' -> nth_error l' k = Some b ->
    exists a, nth_error l k = Some a /\ R a b.
Proof.
  intros l l' k b Hall. revert k.
  induction Hall as [ | a0 b0 l l' HR Hall IH ]; intros [ | k ] Hb;
    simpl in *; try discriminate.
  - injection Hb as <-. now exists a0.
  - now apply IH.
Qed.

Lemma nth_error_combine {A B : Type} :
  forall (l : list A) (l' : list B) (k : nat) (a : A) (b : B),
    nth_error (combine l l') k = Some (a, b) ->
    nth_error l k = Some a /\ nth_error l' k = Some b.
Proof.
  induction l as [ | a0 l IH ]; intros [ | b0 l' ] [ | k ] a b H;
    simpl in *; try discriminate.
  - injection H as <- <-. now split.
  - now apply IH.
Qed.

(** X9: the loop of [construct] runs over [zip(states, colors)], so it
    builds as many curves as there are states or colours, whichever is
    fewer; the k-th curve carries the k-th colour and the integrator's
    output on the k-th state. *)
Theorem construct_pairs_states_with_colors :
  forall (solve_ivp : ivp_solver) (color : Type)
         (color_gradient : list color -> nat -> list color)
         (BLUE_E RED_E : color) (curves : list (curve color)),
    construct solve_ivp color_gradient BLUE_E RED_E = Ok curves ->
    length curves = Nat.min 5 (length (color_gradient [BLUE_E; RED_E] 5%nat)) /\
    forall k cv,
      nth_error curves k = Some cv ->
      exists state c,
        nth_error states k = Some state /\
        nth_error (color_gradient [BLUE_E; RED_E] 5%nat) k = Some c /\
        ode_solution_points solve_ivp lorenz state 15 None = Ok (points cv) /\
        stroke cv = c.
Proof.
  intros solve_ivp color color_gradient BLUE_E RED_E curves.
  unfold construct, colors. change (length states) with 5%nat.
  rewrite curves_loop_spec. intros (new & -> & Hall). simpl app. split.
  - rewrite <- (Forall2_length Hall), length_combine. reflexivity.
  - intros k cv Hcv.
    destruct (Forall2_nth_error _ _ _ _ _ Hall Hcv) as ([state c] & Hsc & Hode & Hst).
    apply nth_error_combine in Hsc. destruct Hsc as [Hs Hc].
    exists state, c. repeat split; assumption.
Qed.

Lemma construct_pairs_states_with_colors_witness :
  length (built_curves
            (construct euler_ivp (fun _ _ => [7; 8; 9]%nat) 0%nat 1%nat))
    = Nat.min 5 (length [7; 8; 9]%nat).
Proof.
  apply (construct_pairs_states_with_colors euler_ivp nat
           (fun _ _ => [7; 8; 9]%nat) 0%nat 1%nat).
  vm_compute; reflexivity.
Defined.

(** ** The dynamics function: symmetry and the z axis *)

Lemma SFopp_involutive (a : spec_float) : SFopp (SFopp a) = a.
Proof.
  destruct a as [ s | s | | s m e ]; simpl; try reflexivity;
    now rewrite negb_involutive.
Qed.

Lemma binary_round_aux_opp (s : bool) (m e : Z) (l : location) :
  binary_round_aux prec emax (negb s) m e l
    = SFopp (binary_round_aux prec emax s m e l).
Proof.
  unfold binary_round_aux.
  destruct (shr_fexp prec emax m e l) as [mrs1 e1].
  destruct (shr_fexp prec emax _ e1 loc_Exact) as [mrs2 e2].
  destruct (shr_m mrs2); try reflexivity.
  now destruct (Z.leb e2 (emax - prec)).
Qed.

Lemma SFmul_opp_l (a b : spec_float) :
  SF64mul (SFopp a) b = SFopp (SF64mul a b).
Proof.
  destruct a as [ sa | sa | | sa ma ea ]; destruct b as [ sb | sb | | sb mb eb ];
    simpl; try reflexivity;
    try (now destruct sa, sb).
  unfold SF64mul, SFmul. rewrite <- binary_round_aux_opp.
  now destruct sa, sb.
Qed.

Lemma SFmul_opp_r (a b : spec_float) :
  SF64mul a (SFopp b) = SFopp (SF64mul a b).
Proof.
  destruct a as [ sa | sa | | sa ma ea ]; destruct b as [ sb | sb | | sb mb eb ];
    simpl; try reflexivity;
    try (now destruct sa, sb).
  unfold SF64mul, SFmul. rewrite <- binary_round_aux_opp.
  now destruct sa, sb.
Qed.

Lemma sf_same_refl (a : spec_float) : sf_same a a.
Proof. now left. Qed.

Lemma binary_normalize_opp (m e : Z) :
  sf_same (binary_normalize prec emax (- m) e false)
          (SFopp (binary_normalize prec emax m e false)).
Proof.
  destruct m as [ | p | p ]; simpl.
  - right. now split.
  - left. unfold binary_round.
    destruct (shl_align p e _) as [mz ez].
    exact (binary_round_aux_opp false (Zpos mz) ez loc_Exact).
  - left. unfold binary_round.
    destruct (shl_align p e _) as [mz ez].
    exact (binary_round_aux_opp true (Zpos mz) ez loc_Exact).
Qed.

Lemma SFsub_opp_opp (a b : spec_float) :
  sf_same (SF64sub (SFopp a) (SFopp b)) (SFopp (SF64sub a b)).
Proof.
  destruct a as [ sa | sa | | sa ma ea ]; destruct b as [ sb | sb | | sb mb eb ];
    try (destruct sa, sb; simpl; (now left) || (right; now split));
    try (destruct sa; simpl; now left);
    try (destruct sb; simpl; now left);
    try (now left).
  unfold SF64sub, SFsub, SFopp.
  set (A := Zpos (fst (shl_align ma ea (Z.min ea eb)))).
  set (B := Zpos (fst (shl_align mb eb (Z.min ea eb)))).
  replace (cond_Zopp (negb sa) A - cond_Zopp (negb sb) B)%Z
    with (- (cond_Zopp sa A - cond_Zopp sb B))%Z
    by (destruct sa, sb; cbn [cond_Zopp negb]; lia).
  apply binary_normalize_opp.
Qed.

Lemma SFmul_same_r (c a a' : spec_float) :
  sf_same a a' -> sf_same (SF64mul c a) (SF64mul c a').
Proof.
  intros [ -> | [Ha Ha'] ]; [ now left | ].
  destruct a as [ s | | | ]; try discriminate Ha.
  destruct a' as [ s' | | | ]; try discriminate Ha'.
  destruct c as [ sc | sc | | sc mc ec ]; simpl;
    (now left) || (right; now split).
Qed.

Lemma sf_same_number (a b : float) :
  sf_same (Prim2SF a) (Prim2SF b) -> same_number a b.
Proof.
  intros [ H | H ].
  - left. now apply Prim2SF_inj.
  - right. now rewrite !is_zero_spec.
Qed.

Lemma mul_opp_opp (a b : float) : (- a) * (- b) = a * b.
Proof.
  apply Prim2SF_inj.
  rewrite !mul_spec, !opp_spec, SFmul_opp_l, SFmul_opp_r.
  now rewrite SFopp_involutive.
Qed.

(** X2: the dynamics has the symmetry of the Lorenz equations under
    (x, y, z) -> (-x, -y, z): on the mirrored state the first two derivative
    components are the negated ones, as numbers, and the third is the same
    float, for all floats and all parameters. *)
Theorem lorenz_system_symmetry :
  forall t x y0 z sigma rho beta,
  exists dx dy dz dx' dy',
    lorenz_system t [x; y0; z] sigma rho beta = Ok [dx; dy; dz] /\
    lorenz_system t [- x; - y0; z] sigma rho beta = Ok [dx'; dy'; dz] /\
    same_number dx' (- dx) /\ same_number dy' (- dy).
Proof.
  intros t x y0 z sigma rho beta.
  do 5 eexists. split; [ reflexivity | ]. split; [ | split ].
  - unfold lorenz_system. cbn [unpack3 bind].
    rewrite mul_opp_opp. reflexivity.
  - apply sf_same_number.
    rewrite opp_spec, !mul_spec, !sub_spec, !opp_spec, <- SFmul_opp_r.
    apply SFmul_same_r, SFsub_opp_opp.
  - apply sf_same_number.
    rewrite opp_spec, !sub_spec, !mul_spec, !opp_spec, SFmul_opp_l.
    apply SFsub_opp_opp.
Qed.

Lemma mul_zero_r (a b : float) :
  is_finite a = true -> is_zero b = true -> is_zero (a * b) = true.
Proof.
  rewrite is_finite_spec, !is_zero_spec, mul_spec.
  destruct (Prim2SF a) as [ sa | sa | | sa ma ea ]; try discriminate;
    destruct (Prim2SF b) as [ sb | sb | | sb mb eb ]; try discriminate;
    reflexivity.
Qed.

Lemma mul_zero_l (a b : float) :
  is_zero a = true -> is_finite b = true -> is_zero (a * b) = true.
Proof.
  rewrite is_finite_spec, !is_zero_spec, mul_spec.
  destruct (Prim2SF a) as [ sa | sa | | sa ma ea ]; try discriminate;
    destruct (Prim2SF b) as [ sb | sb | | sb mb eb ]; try discriminate;
    reflexivity.
Qed.

Lemma zero_sub (w : float) : same_number (0 - w) (- w).
Proof.
  apply sf_same_number. rewrite sub_spec, opp_spec.
  change (Prim2SF 0) with (S754_zero false).
  destruct (Prim2SF w) as [ [ | ] | s | | s m e ]; simpl;
    (now left) || (right; now split).
Qed.

(** X3: the z axis is invariant.  On a state (0, 0, z), for a finite sigma
    and rho and z of magnitude below 1e250 (given or default parameters),
    the first two derivative components are zeros and the third is
    -(beta * z) as a number. *)
Theorem lorenz_system_z_axis :
  forall t z sigma rho beta,
    is_finite (kwarg sigma_default sigma) = true ->
    (abs (kwarg rho_default rho) <? 1e250) = true ->
    (abs z <? 1e250) = true ->
    exists dx dy dz,
      lorenz_system t [0; 0; z] sigma rho beta = Ok [dx; dy; dz] /\
      is_zero dx = true /\ is_zero dy = true /\
      same_number dz (- (kwarg beta_default beta * z)).
Proof.
  intros t z sigma rho beta Hs Hr Hz.
  do 3 eexists. split; [ reflexivity | ].
  apply abs_lt_1e250_below in Hr, Hz.
  assert (Hrz : is_finite (kwarg rho_default rho - z) = true).
  { apply (below_is_finite 833), (sub_below 831 831); auto; exponent_range. }
  split; [ | split ].
  - apply mul_zero_r; [ exact Hs | reflexivity ].
  - rewrite sub_zero_r. apply mul_zero_l; [ reflexivity | exact Hrz ].
  - change (0 * 0) with 0. apply zero_sub.
Qed.

Lemma lorenz_system_z_axis_witness :
  exists dx dy dz,
    lorenz_system 0 [0; 0; 10] None None None = Ok [dx; dy; dz] /\
    is_zero dx = true /\ is_zero dy = true /\
    same_number dz (- (kwarg beta_default None * 10)).
Proof.
  apply (lorenz_system_z_axis 0 10 None None None); reflexivity.
Defined.
